(** * A shallow embedding of [top_shelf.py]: the [Identity] monad, the
    free functions [unit], [map], [apply], [bind], the equality
    [Identity.__eq__] and the test helper [_modify].

    Python objects live in a heap: an [Identity] instance is a reference
    [VObj l] to an [OIdentity] cell, a function object a reference
    [VFunc l] to an [OFun] cell holding its closure.  Numbers, strings,
    booleans and [None] are immediate values.  Floats are the primitive
    binary64 floats of Rocq, so that NaN compares unequal to itself as in
    Python.  Exceptions are an error outcome of the monad, and
    [random.randrange] reads the next number of a random stream kept in
    the state. *)

From Stdlib Require Import ZArith List String Bool Lia.
From Stdlib Require Import Floats.
Import ListNotations.

Open Scope Z_scope.

(** ** Values, objects and the interpreter state *)

Definition loc := nat.

Inductive val : Type :=
| VInt (z : Z)
| VBool (b : bool)
| VFloat (f : float)
| VComplex (re im : float)
| VStr (s : string)
| VNone
| VObj (l : loc)     (* a reference to an [Identity] instance *)
| VFunc (l : loc).   (* a reference to a function object *)
Arguments VObj l%_nat.
Arguments VFunc l%_nat.

(** What a generated ("raw") function does with its argument: return a
    value, construct a fresh [Identity] around a value, or raise. *)
Inductive exn : Type :=
| AttributeError
| TypeError
| OverflowError
| RecursionError.

Inductive uret : Type :=
| RVal (v : val)
| RNew (v : val)
| RRaise (e : exn).

(** The function objects of the module. *)
Inductive closure : Type :=
| CUser (g : val -> uret)
    (* a raw function, as the hypothesis strategies generate them *)
| CIdentity
    (* the module function [identity] *)
| CUnit
    (* the bound class method [Identity.unit] *)
| CMapLambda (monad function : val)
    (* [lambda x: monad.value(function(x))], built by [map] *)
| CModify (function : val) (cache : list (val * val)).
    (* the [lru_cache]d inner [f] returned by [_modify(function)]; its
       [pure] is left at the default [Identity.unit], the only one used *)

Inductive obj : Type :=
| OIdentity (value : val)
| OFun (c : closure).

Record state : Type := mkState {
  heap : list obj;
  rng : nat -> Z;    (* the random stream read by [random.randrange] *)
  rpos : nat
}.

Inductive outcome (A : Type) : Type :=
| Ret (a : A) (s : state)
| Raise (e : exn).
Arguments Ret {A} a s.
Arguments Raise {A} e.

Definition M (A : Type) : Type := state -> outcome A.

Definition ret {A} (a : A) : M A := fun s => Ret a s.
Definition raise {A} (e : exn) : M A := fun _ => Raise e.
Definition mbind {A B} (m : M A) (k : A -> M B) : M B :=
  fun s => match m s with Ret a s' => k a s' | Raise e => Raise e end.

Notation "x <- m ;; k" := (mbind m (fun x => k))
  (at level 61, m at next level, right associativity).
Notation "m ;;; k" := (mbind m (fun _ => k))
  (at level 61, right associativity).

Definition load (l : loc) : M obj :=
  fun s => match nth_error (heap s) l with
           | Some o => Ret o s
           | None => Raise AttributeError
           end.

Definition alloc (o : obj) : M loc :=
  fun s => Ret (List.length (heap s))
               (mkState (heap s ++ [o]) (rng s) (rpos s)).

Fixpoint set_nth {A} (xs : list A) (n : nat) (a : A) : list A :=
  match xs, n with
  | [], _ => []
  | _ :: xs, O => a :: xs
  | x :: xs, S n => x :: set_nth xs n a
  end.

Definition store (l : loc) (o : obj) : M unit :=
  fun s => Ret tt (mkState (set_nth (heap s) l o) (rng s) (rpos s)).

(** [random.randrange(lo, hi)]: the next number of the stream, brought
    into [lo, hi). *)
Definition randrange (lo hi : Z) : M Z :=
  fun s => Ret (lo + rng s (rpos s) mod (hi - lo))
               (mkState (heap s) (rng s) (S (rpos s))).

(** ** Python's [==] on immediate values *)

(** [float == int] compares exactly, through the binary expansion of the
    float. *)
Definition float_eq_Z (f : float) (z : Z) : bool :=
  match Prim2SF f with
  | S754_zero _ => Z.eqb z 0
  | S754_finite s m e =>
      let v := if s then Z.neg m else Z.pos m in
      if Z.leb 0 e then Z.eqb z (v * 2 ^ e) else Z.eqb (z * 2 ^ (- e)) v
  | _ => false
  end.

(** The numeric tower as [==] sees it: [bool] is an [int]. *)
Inductive num : Type :=
| NInt (z : Z)
| NFloat (f : float)
| NComplex (re im : float).

Definition to_num (v : val) : option num :=
  match v with
  | VInt z => Some (NInt z)
  | VBool b => Some (NInt (if b then 1 else 0))
  | VFloat f => Some (NFloat f)
  | VComplex re im => Some (NComplex re im)
  | _ => None
  end.

Definition num_eq (a b : num) : bool :=
  match a, b with
  | NInt x, NInt y => Z.eqb x y
  | NInt x, NFloat f | NFloat f, NInt x => float_eq_Z f x
  | NFloat f, NFloat g => PrimFloat.eqb f g
  | NInt x, NComplex re im | NComplex re im, NInt x =>
      float_eq_Z im 0 && float_eq_Z re x
  | NFloat f, NComplex re im | NComplex re im, NFloat f =>
      PrimFloat.eqb im PrimFloat.zero && PrimFloat.eqb re f
  | NComplex r1 i1, NComplex r2 i2 => PrimFloat.eqb r1 r2 && PrimFloat.eqb i1 i2
  end.

(** [==] between two values neither of which is an [Identity] instance;
    a function object equals only itself (identity comparison). *)
Definition scalar_eq (a b : val) : bool :=
  match to_num a, to_num b with
  | Some x, Some y => num_eq x y
  | _, _ =>
      match a, b with
      | VStr s, VStr t => String.eqb s t
      | VNone, VNone => true
      | VFunc x, VFunc y => Nat.eqb x y
      | _, _ => false
      end
  end.

Definition callable (v : val) : bool :=
  match v with VFunc _ => true | _ => false end.

(** [Identity] is a non-frozen dataclass with [eq]: its [__hash__] is
    [None], so its instances cannot be dictionary keys. *)
Definition hashable (v : val) : bool :=
  match v with VObj _ => false | _ => true end.

(** The key [lru_cache] (with [typed=False]) makes of a call with the
    single positional argument [x] is [x] itself when [type(x)] is
    exactly [int] or [str], and the tuple [(x,)] otherwise ([bool],
    [float], [complex], [None], functions). *)
Definition bare_key (v : val) : bool :=
  match v with VInt _ | VStr _ => true | _ => false end.

(** Key matching of the cache dictionary.  A bare key never equals a
    tuple key, so [f(True)] or [f(1.0)] does not find the entry of
    [f(1)]; two keys of the same shape match when their arguments are
    [==] (equal keys have equal hashes).  A float is an immediate value
    here, with no object identity: a key holding a NaN matches nothing,
    as for two distinct NaN objects in Python. *)
Definition key_eq (k x : val) : bool :=
  Bool.eqb (bare_key k) (bare_key x) && scalar_eq k x.

Fixpoint lookup_cache (x : val) (cache : list (val * val)) : option val :=
  match cache with
  | [] => None
  | (k, r) :: cache => if key_eq k x then Some r else lookup_cache x cache
  end.

(** ** [Identity] and the free functions *)

(** Attribute [.value]. *)
Definition get_value (v : val) : M val :=
  match v with
  | VObj l => o <- load l;;
              match o with
              | OIdentity p => ret p
              | OFun _ => raise AttributeError
              end
  | _ => raise AttributeError
  end.

(** [Identity(value)]. *)
Definition Identity_new (value : val) : M val :=
  l <- alloc (OIdentity value);; ret (VObj l).

(** [def unit(M, value): return M(value)], with [M = Identity]. *)
Definition unit (value : val) : M val := Identity_new value.

(** [isinstance(value, Identity)]. *)
Definition is_Identity (v : val) : bool :=
  match v with VObj _ => true | _ => false end.

(** [Identity.unit]:
    [return unit(cls, value) if not isinstance(value, cls) else value]. *)
Definition Identity_unit (value : val) : M val :=
  if negb (is_Identity value) then unit value else ret value.

Definition run_uret (r : uret) : M val :=
  match r with
  | RVal v => ret v
  | RNew v => Identity_new v
  | RRaise e => raise e
  end.

(** ** [_modify] *)

(** [math.isnan] on the real numbers: an [int] is first converted to a
    float, which overflows from [2^1024 - 2^970] on (round to nearest
    even reaches [2^1024]). *)
Definition float_int_limit : Z := 2 ^ 1024 - 2 ^ 970.
Arguments float_int_limit : simpl never.

Definition isnan (v : val) : M bool :=
  match v with
  | VFloat f => ret (PrimFloat.is_nan f)
  | VInt z => if Z.leb float_int_limit (Z.abs z)
              then raise OverflowError else ret false
  | VBool _ => ret false
  | _ => raise TypeError
  end.

(** [isinstance(v, Complex)] with the attributes [v.real] and [v.imag]:
    every number of the tower is a [Complex]. *)
Definition complex_parts (v : val) : option (val * val) :=
  match v with
  | VInt z => Some (VInt z, VInt 0)
  | VBool b => Some (VInt (if b then 1 else 0), VInt 0)
  | VFloat f => Some (VFloat f, VFloat PrimFloat.zero)
  | VComplex re im => Some (VFloat re, VFloat im)
  | _ => None
  end.

(** [cache[key] = result] in the [lru_cache] wrapper at [self]. *)
Definition cache_put (self : loc) (x out : val) : M Datatypes.unit :=
  o <- load self;;
  match o with
  | OFun (CModify fn c) => store self (OFun (CModify fn ((x, out) :: c)))
  | _ => ret tt
  end.

(** A call of the memoised [f] built by [_modify(function)]:
<<
    @functools.lru_cache(maxsize=None)
    def f(x):
        result = pure(function(x))
        if isinstance(result.value, Complex):
            if math.isnan(result.value.imag) or math.isnan(result.value.real):
                return pure(None)
        elif isinstance(result.value, Number) and math.isnan(result.value):
            return pure(None)
        return result
>>
    The [elif] branch is unreachable: every number here is a [Complex]. *)
Definition modify_call (callf : val -> val -> M val) (self : loc)
    (function : val) (cache : list (val * val)) (x : val) : M val :=
  if negb (hashable x) then raise TypeError else
  match lookup_cache x cache with
  | Some r => ret r
  | None =>
      r <- callf function x;;
      result <- Identity_unit r;;
      rv <- get_value result;;
      out <- match complex_parts rv with
             | Some (re, im) =>
                 b <- isnan im;;
                 if b then Identity_unit VNone else
                 b' <- isnan re;;
                 if b' then Identity_unit VNone else ret result
             | None => ret result
             end;;
      cache_put self x out;;;
      ret out
  end.

(** ** Calling a function object

    [n] bounds the depth of nested calls; running out of it is Python's
    [RecursionError]. *)
(** One call of the function object [fv] on [x]; nested calls go
    through [call]. *)
Definition call_step (call : val -> val -> M val) (fv x : val) : M val :=
  match fv with
  | VFunc l =>
      o <- load l;;
      match o with
      | OFun (CUser g) => run_uret (g x)
      | OFun CIdentity => ret x
      | OFun CUnit => Identity_unit x
      | OFun (CMapLambda monad function) =>
          h <- get_value monad;;
          y <- call function x;;
          call h y
      | OFun (CModify function cache) =>
          modify_call call l function cache x
      | OIdentity _ => raise TypeError
      end
  | _ => raise TypeError
  end.

Fixpoint call (n : nat) (fv x : val) : M val :=
  match n with
  | O => raise RecursionError
  | S n => call_step (call n) fv x
  end.

(** ** Equality *)

(** [Identity.__eq__(self, other)]:
<<
    if callable(self.value) and callable(other.value):
        i = random.randrange(0, 100)
        return self.value(i) == other.value(i)
    return self.value == other.value
>> *)
Definition Identity_eq (callf : val -> val -> M val)
    (eq : val -> val -> M bool) (self : loc) (other : val) : M bool :=
  let fallback :=
    a <- get_value (VObj self);; b <- get_value other;; eq a b in
  sv <- get_value (VObj self);;
  if callable sv then
    ov <- get_value other;;
    if callable ov then
      i <- randrange 0 100;;
      f <- get_value (VObj self);; r1 <- callf f (VInt i);;
      g <- get_value other;; r2 <- callf g (VInt i);;
      eq r1 r2
    else fallback
  else fallback.

(** Python's [a == b]: [Identity.__eq__] of the left operand, or of the
    right one when only that one is an [Identity] (the left one's
    [__eq__] returns [NotImplemented]). *)
Definition py_eq_step (callf : val -> val -> M val)
    (eq : val -> val -> M bool) (a b : val) : M bool :=
  match a, b with
  | VObj l, _ => Identity_eq callf eq l b
  | _, VObj l => Identity_eq callf eq l a
  | _, _ => ret (scalar_eq a b)
  end.

Fixpoint py_eq (n : nat) (a b : val) : M bool :=
  match n with
  | O => raise RecursionError
  | S n => py_eq_step (call n) (py_eq n) a b
  end.

(** ** [map], [apply], [bind] *)

(** The attribute [monad.unit] (the class method of [Identity]). *)
Definition get_unit (monad : val) : M Datatypes.unit :=
  match monad with VObj _ => ret tt | _ => raise AttributeError end.

(** [map(monad, function)]:
<<
    return monad.unit(
        function(monad.value)
        if not callable(monad.value)
        else lambda x: monad.value(function(x))
    )
>> *)
Definition map (n : nat) (monad function : val) : M val :=
  get_unit monad;;;
  mv <- get_value monad;;
  arg <- (if negb (callable mv)
          then mv' <- get_value monad;; call n function mv'
          else l <- alloc (OFun (CMapLambda monad function));; ret (VFunc l));;
  Identity_unit arg.

(** [apply(lifted_function, lifted)]:
    [return map(lifted, lifted_function.value)]. *)
Definition apply (n : nat) (lifted_function lifted : val) : M val :=
  fv <- get_value lifted_function;; map n lifted fv.

(** [bind(monad, function)]: [return function(monad.value)]. *)
Definition bind (n : nat) (monad function : val) : M val :=
  mv <- get_value monad;; call n function mv.

(** ** Sample raw functions and states *)

(** [lambda x: x + 1]. *)
Definition plus_one (x : val) : uret :=
  match x with
  | VInt z => RVal (VInt (z + 1))
  | VBool b => RVal (VInt ((if b then 1 else 0) + 1))
  | VFloat f => RVal (VFloat (PrimFloat.add f PrimFloat.one))
  | VComplex re im => RVal (VComplex (PrimFloat.add re PrimFloat.one) im)
  | _ => RRaise TypeError
  end.

(** [lambda y: y * 2]. *)
Definition times_two (x : val) : uret :=
  match x with
  | VInt z => RVal (VInt (z * 2))
  | VBool b => RVal (VInt ((if b then 1 else 0) * 2))
  | VFloat f => RVal (VFloat (PrimFloat.mul f PrimFloat.two))
  | VComplex re im =>
      RVal (VComplex (PrimFloat.mul re PrimFloat.two) (PrimFloat.mul im PrimFloat.two))
  | VStr s => RVal (VStr (s ++ s))
  | _ => RRaise TypeError
  end.

(** A random stream that always yields [42]. *)
Definition rng42 : nat -> Z := fun _ => 42.

Definition init (h : list obj) : state := mkState h rng42 0.

(** Evaluate a program and read off its result. *)
Definition result_of {A} (m : M A) (s : state) : option A :=
  match m s with Ret a _ => Some a | Raise _ => None end.

(** [Identity(lambda x: x + 1)] at location 0. *)
Definition st_fun : state :=
  init [OIdentity (VFunc 1); OFun (CUser plus_one); OFun (CUser times_two)].

(** [map(Identity(lambda x: x + 1), lambda y: y * 2).value(3)]. *)
Definition map_fun_at (n : nat) (z : Z) : M val :=
  r <- map n (VObj 0) (VFunc 2);; p <- get_value r;; call n p (VInt z).

(** [lambda x: f(g(x))] for two raw functions, when [g] returns a plain
    value or raises.  A raw function cannot receive an object allocated
    during the call, so the case where [g] returns a fresh container is
    not represented (it is mapped to an error); the samples and theorems
    that use [compose_raw] have [g] return plain values. *)
Definition compose_raw (f g : val -> uret) (x : val) : uret :=
  match g x with
  | RVal v => f v
  | RNew _ => RRaise TypeError
  | RRaise e => RRaise e
  end.

(** The second functor law of [test_map]'s docstring,
    [fmap (f . g) == fmap f . fmap g], on [Identity(lambda x: x + 1)]
    with [f = lambda y: y * 2] and [g = lambda x: x + 1]. *)
Definition st_law2 : state :=
  init [OIdentity (VFunc 1); OFun (CUser plus_one);
        OFun (CUser (compose_raw times_two plus_one));
        OFun (CUser times_two); OFun (CUser plus_one)].

Definition functor_law2 (n : nat) : M bool :=
  lhs <- map n (VObj 0) (VFunc 2);;
  inner <- map n (VObj 0) (VFunc 4);;
  rhs <- map n inner (VFunc 3);;
  py_eq n lhs rhs.

(** A container and a function returning that very container:
    [m = Identity(5)], [k = lambda _: m]. *)
Definition st_self : state :=
  init [OIdentity (VInt 5); OFun (CUser (fun _ => RVal (VObj 0)))].

(** [map(monad, identity) == monad]. *)
Definition functor_identity (n : nat) (monad identity_fn : val) : M bool :=
  r <- map n monad identity_fn;; py_eq n r monad.

(** [Identity(float('nan'))] and the module function [identity]. *)
Definition st_nan : state :=
  init [OIdentity (VFloat PrimFloat.nan); OFun CIdentity].

(** [apply(Identity.unit(f), Identity.unit(a)) == Identity.unit(f(a))]. *)
Definition homomorphism (n : nat) (a f : val) : M bool :=
  uf <- Identity_unit f;;
  ua <- Identity_unit a;;
  lhs <- apply n uf ua;;
  r <- call n f a;;
  rhs <- Identity_unit r;;
  py_eq n lhs rhs.

(** [f = lambda x: float('nan')]. *)
Definition st_nan_fun : state :=
  init [OFun (CUser (fun _ => RVal (VFloat PrimFloat.nan)))].

(** A NaN test on the unwrapped result, as [_modify] performs it. *)
Definition nan_val (v : val) : bool :=
  match v with
  | VFloat f => PrimFloat.is_nan f
  | VComplex re im => PrimFloat.is_nan im || PrimFloat.is_nan re
  | _ => false
  end.

(** An [int] that [math.isnan] can convert to a float. *)
Definition fits_float (v : val) : bool :=
  match v with
  | VInt z => Z.ltb (Z.abs z) float_int_limit
  | _ => true
  end.

(** The wrapper of [_modify(lambda x: x + 1)] with an empty cache. *)
Definition st_modify : state :=
  init [OFun (CUser plus_one); OFun (CModify (VFunc 0) []);
        OIdentity (VInt 3)].

Definition st_mixed : state :=
  init [OIdentity (VFunc 1); OFun (CUser plus_one); OIdentity (VInt 4)].

(** Two containers of the function [lambda x: x + 1], and two of [None]. *)
Definition st_eq : state :=
  init [OIdentity (VFunc 2); OIdentity (VFunc 2); OFun (CUser plus_one);
        OIdentity VNone; OIdentity VNone].

(** [Identity(5)] and the module function [identity]. *)
Definition st_int : state := init [OIdentity (VInt 5); OFun CIdentity].

Definition st_plus_one : state := init [OFun (CUser plus_one)].

(** The state after the first call [f(3)] of the wrapper of
    [_modify(lambda x: x + 1)]. *)
Definition st_modify_after : state :=
  init [OFun (CUser plus_one); OFun (CModify (VFunc 0) [(VInt 3, VObj 3)]);
        OIdentity (VInt 3); OIdentity (VInt 4)].

(** A program that never shrinks the heap: objects are allocated at the
    end and updated in place, never removed. *)
Definition Grows {A} (m : M A) : Prop :=
  forall s a s', m s = Ret a s' -> (List.length (heap s) <= List.length (heap s'))%nat.

(** ** The laws checked by the tests *)

(** [bind(unit(Identity, value), f) == f(value)], the left identity law
    of [test_bind]. *)
Definition left_identity (n : nat) (value f : val) : M bool :=
  u <- unit value;; lhs <- bind n u f;; rhs <- call n f value;; py_eq n lhs rhs.

(** [bind(monad, monad.unit) == monad], the right identity law of
    [test_bind]; [unit_fn] is the bound method [monad.unit]. *)
Definition right_identity (n : nat) (monad unit_fn : val) : M bool :=
  get_unit monad;;; lhs <- bind n monad unit_fn;; py_eq n lhs monad.

(** [bind(bind(monad, f), g) == bind(monad, lambda x: bind(f(x), g))],
    the associativity law of [test_bind]; the call of the lambda on
    [monad.value] runs its body [bind(f(x), g)]. *)
Definition associativity (n : nat) (monad f g : val) : M bool :=
  inner <- bind n monad f;; lhs <- bind n inner g;;
  x <- get_value monad;; fx <- call n f x;; rhs <- bind n fx g;;
  py_eq n lhs rhs.

(** [apply(monad.unit(identity), monad) == monad], the identity law of
    [test_app]. *)
Definition app_identity (n : nat) (monad identity_fn : val) : M bool :=
  get_unit monad;;; u <- Identity_unit identity_fn;;
  lhs <- apply n u monad;; py_eq n lhs monad.

(** [map(m, f_after_g) == map(map(m, g), f)], the composition law of
    [test_map]. *)
Definition functor_composition (n : nat) (m f g f_after_g : val) : M bool :=
  lhs <- map n m f_after_g;; inner <- map n m g;; rhs <- map n inner f;;
  py_eq n lhs rhs.

(** [map(map(m, f), g).value(x)]. *)
Definition map_map_at (n : nat) (m f g x : val) : M val :=
  r1 <- map n m f;; r2 <- map n r1 g;; p <- get_value r2;; call n p x.

(** [map(m, function).value(x)]. *)
Definition map_call_at (n : nat) (m function x : val) : M val :=
  r <- map n m function;; p <- get_value r;; call n p x.

(** The payload of the container that [_modify]'s wrapper returns for a
    raw result [v]: [None] in place of a NaN. *)
Definition modify_payload (v : val) : val := if nan_val v then VNone else v.

(** [m = Identity(3)] and the wrappers of [_modify(lambda x: x + 1)] and
    [_modify(lambda y: y * 2)], with empty caches. *)
Definition st_assoc : state :=
  init [OIdentity (VInt 3); OFun (CUser plus_one); OFun (CModify (VFunc 1) []);
        OFun (CUser times_two); OFun (CModify (VFunc 3) [])].

(** [Identity(5)], the bound method [Identity.unit] and
    [Identity(Identity(5))]. *)
Definition st_right : state :=
  init [OIdentity (VInt 5); OFun CUnit; OIdentity (VObj 0)].

(** [Identity(3)], [f = lambda x: x + 1], [g = lambda y: y * 2] and
    [lambda x: f(g(x))]. *)
Definition st_comp : state :=
  init [OIdentity (VInt 3); OFun (CUser plus_one); OFun (CUser times_two);
        OFun (CUser (compose_raw plus_one times_two))].

(** [lambda x: Identity(x)]. *)
Definition wrap_raw (x : val) : uret := RNew x.

(** The wrapper of [_modify(lambda x: Identity(x))] with an empty cache. *)
Definition st_wrap : state :=
  init [OFun (CUser wrap_raw); OFun (CModify (VFunc 0) [])].

(** * Properties *)

(** ** Evaluation lemmas *)

Lemma load_ok (s : state) (l : loc) (o : obj) :
  nth_error (heap s) l = Some o -> load l s = Ret o s.
Proof. intros H. unfold load. now rewrite H. Qed.

Lemma get_value_obj (s : state) (l : loc) (p : val) :
  nth_error (heap s) l = Some (OIdentity p) -> get_value (VObj l) s = Ret p s.
Proof. intros H. unfold get_value, mbind. now rewrite (load_ok s l _ H). Qed.

Lemma mbind_Ret {A B} (m : M A) (k : A -> M B) (s s' : state) (a : A) :
  m s = Ret a s' -> mbind m k s = k a s'.
Proof. intros H. unfold mbind. now rewrite H. Qed.

Lemma nth_error_app_old {A} (xs ys : list A) (l : nat) (a : A) :
  nth_error xs l = Some a -> nth_error (xs ++ ys) l = Some a.
Proof.
  intros H. rewrite nth_error_app1; [exact H|].
  apply nth_error_Some. now rewrite H.
Qed.

Lemma nth_error_app_new {A} (xs : list A) (a : A) :
  nth_error (xs ++ [a]) (List.length xs) = Some a.
Proof. rewrite nth_error_app2 by lia. now rewrite Nat.sub_diag. Qed.

Lemma Identity_unit_new (v : val) (s : state) :
  is_Identity v = false ->
  Identity_unit v s =
  Ret (VObj (List.length (heap s))) (mkState (heap s ++ [OIdentity v]) (rng s) (rpos s)).
Proof. intros H. unfold Identity_unit. now rewrite H. Qed.

(** [map] on a container whose payload is a function allocates the
    closure [lambda x: monad.value(function(x))] and a fresh [Identity]
    around it. *)
Lemma map_function_payload (n : nat) (s : state) (lm lh : loc) (fn : val) :
  nth_error (heap s) lm = Some (OIdentity (VFunc lh)) ->
  map n (VObj lm) fn s =
  Ret (VObj (S (List.length (heap s))))
      (mkState (heap s ++ [OFun (CMapLambda (VObj lm) fn);
                           OIdentity (VFunc (List.length (heap s)))])
               (rng s) (rpos s)).
Proof.
  intros H. unfold map, get_unit, mbind at 1, ret at 1.
  rewrite (mbind_Ret _ _ _ _ _ (get_value_obj _ _ _ H)). cbn.
  unfold ret. rewrite length_app, <- app_assoc. cbn. f_equal. f_equal. lia.
Qed.

(** On [Identity(lambda x: x + 1)] the second functor law of the
    docstring of [test_map] fails: [map] puts [function] before the
    wrapped function. *)
Lemma functor_law2_fails : result_of (functor_law2 6) st_law2 = Some false.
Proof. vm_compute. reflexivity. Qed.

(** C1: [map(Identity(lambda x: x + 1), lambda y: y * 2)] evaluates its
    payload at [3] to [(3 * 2) + 1 = 7], not to [(3 + 1) * 2 = 8]: the
    new function runs [function] first and the original function second. *)
Lemma map_fun_payload_at_3 :
  result_of (map_fun_at 5 3) st_fun = Some (VInt 7) /\
  result_of (map_fun_at 5 3) st_fun <> Some (VInt 8).
Proof. vm_compute. split; [reflexivity | discriminate]. Qed.

(** C2 (counterexample): with [m = Identity(5)] and
    [k = lambda _: m], both [bind(m, k)] and [map(m, k)] return [m]
    itself, not a fresh container, and the heap is left as it was. *)
Lemma bind_map_return_argument :
  bind 6 (VObj 0) (VFunc 1) st_self = Ret (VObj 0) st_self /\
  map 6 (VObj 0) (VFunc 1) st_self = Ret (VObj 0) st_self.
Proof. split; reflexivity. Qed.

(** C5: [Identity.unit v] returns [v] itself, with the heap untouched,
    when [v] is an [Identity]; otherwise it allocates a new [Identity]
    around [v].  It never raises. *)
Lemma Identity_unit_spec (v : val) (s : state) :
  Identity_unit v s =
  (if is_Identity v then Ret v s
   else Ret (VObj (List.length (heap s)))
            (mkState (heap s ++ [OIdentity v]) (rng s) (rpos s))).
Proof. unfold Identity_unit. destruct v; reflexivity. Qed.

(** C8: [apply(u, v)] is [map(v, u.value)]. *)
Lemma apply_is_map (n : nat) (s : state) (lu : loc) (fu v : val) :
  nth_error (heap s) lu = Some (OIdentity fu) ->
  apply n (VObj lu) v s = map n v fu s.
Proof.
  intros H. unfold apply. apply mbind_Ret. now apply get_value_obj.
Qed.

Lemma apply_is_map_witness :
  nth_error (heap st_fun) 0 = Some (OIdentity (VFunc 1)) /\
  apply 5 (VObj 0) (VObj 0) st_fun = map 5 (VObj 0) (VFunc 1) st_fun.
Proof. split; [reflexivity | apply (apply_is_map 5 st_fun 0%nat); reflexivity]. Defined.

(** C9: the free [unit(M, value)] always allocates a new [M(value)], also
    when [value] is already an [Identity], which is then wrapped twice;
    [Identity.unit] returns such a value unchanged. *)
Lemma unit_always_wraps (v : val) (l : loc) (s : state) :
  unit v s =
  Ret (VObj (List.length (heap s)))
      (mkState (heap s ++ [OIdentity v]) (rng s) (rpos s)) /\
  unit (VObj l) s =
  Ret (VObj (List.length (heap s)))
      (mkState (heap s ++ [OIdentity (VObj l)]) (rng s) (rpos s)) /\
  Identity_unit (VObj l) s = Ret (VObj l) s.
Proof. repeat split. Qed.

(** Unfold the monad and the heap accesses, then use the heap facts. *)
Ltac exec_heap :=
  unfold Identity_eq, get_value, mbind, load, ret, raise, alloc, randrange;
  cbn;
  repeat (match goal with
          | H : nth_error (heap ?s) ?l = Some _ |- context [nth_error (heap ?s) ?l] =>
              rewrite H
          end; cbn).

(** C10: when exactly one payload is a function and the other a scalar
    (neither a function nor an [Identity]), [==] draws no random sample,
    raises nothing and answers [False]; the state is unchanged. *)
Lemma eq_function_vs_scalar (n : nat) (s : state) (a b : loc) (fa fb : val) :
  nth_error (heap s) a = Some (OIdentity fa) ->
  nth_error (heap s) b = Some (OIdentity fb) ->
  (callable fa = true /\ callable fb = false /\ is_Identity fb = false) \/
  (callable fa = false /\ is_Identity fa = false /\ callable fb = true) ->
  py_eq (S (S n)) (VObj a) (VObj b) s = Ret false s.
Proof.
  intros Ha Hb Hc.
  change (py_eq (S (S n)) (VObj a) (VObj b))
    with (Identity_eq (call (S n)) (py_eq (S n)) a (VObj b)).
  destruct Hc as [[H1 [H2 H3]] | [H1 [H2 H3]]];
    destruct fa; try discriminate; destruct fb; try discriminate;
    exec_heap; reflexivity.
Qed.

Lemma eq_function_vs_scalar_witness :
  result_of (py_eq 2 (VObj 0) (VObj 2)) st_mixed = Some false.
Proof.
  unfold result_of.
  rewrite (eq_function_vs_scalar 0 st_mixed 0%nat 2%nat (VFunc 1) (VInt 4));
    [reflexivity | reflexivity | reflexivity | left; auto].
Defined.

(** C3: [a == b] on two [Identity] instances.  When both payloads are
    callable, one sample [i] in [0, 100) is drawn (the random stream
    advances by one) and the result is [a.value(i) == b.value(i)];
    otherwise it is [a.value == b.value], with the state unchanged; two
    [None] payloads compare equal. *)
Lemma Identity_eq_spec (n : nat) (s : state) (a b : loc) (fa fb : val) :
  nth_error (heap s) a = Some (OIdentity fa) ->
  nth_error (heap s) b = Some (OIdentity fb) ->
  (callable fa && callable fb = true ->
   let i := rng s (rpos s) mod 100 in
   (0 <= i < 100) /\
   py_eq (S n) (VObj a) (VObj b) s =
   (r1 <- call n fa (VInt i);;
    g <- get_value (VObj b);;
    r2 <- call n g (VInt i);;
    py_eq n r1 r2) (mkState (heap s) (rng s) (S (rpos s)))) /\
  (callable fa && callable fb = false ->
   py_eq (S n) (VObj a) (VObj b) s = py_eq n fa fb s) /\
  (fa = VNone -> fb = VNone ->
   py_eq (S (S n)) (VObj a) (VObj b) s = Ret true s).
Proof.
  intros Ha Hb.
  change (py_eq (S n) (VObj a) (VObj b))
    with (Identity_eq (call n) (py_eq n) a (VObj b)).
  split; [|split].
  - intros Hc i. split; [apply Z.mod_pos_bound; lia|].
    destruct fa; try discriminate; destruct fb; try discriminate.
    exec_heap. reflexivity.
  - intros Hc.
    destruct fa; destruct fb; try discriminate; exec_heap; reflexivity.
  - intros -> ->.
    change (Identity_eq (call n) (py_eq n) a (VObj b))
      with (py_eq (S n) (VObj a) (VObj b)).
    change (py_eq (S (S n)) (VObj a) (VObj b))
      with (Identity_eq (call (S n)) (py_eq (S n)) a (VObj b)).
    exec_heap. reflexivity.
Qed.

Lemma Identity_eq_spec_witness :
  result_of (py_eq 3 (VObj 0) (VObj 1)) st_eq = Some true /\
  result_of (py_eq 3 (VObj 3) (VObj 4)) st_eq = Some true.
Proof.
  destruct (Identity_eq_spec 2 st_eq 0%nat 1%nat (VFunc 2) (VFunc 2)
              eq_refl eq_refl) as [H1 _].
  destruct (H1 eq_refl) as [_ E1].
  destruct (Identity_eq_spec 1 st_eq 3%nat 4%nat VNone VNone
              eq_refl eq_refl) as [_ [_ H3]].
  unfold result_of. rewrite E1, (H3 eq_refl eq_refl).
  split; reflexivity.
Defined.

(** Find the object at a location of a heap that was grown by
    allocations. *)
Ltac heap_lookup :=
  first [ eassumption
        | apply nth_error_app_new
        | apply nth_error_app_old; heap_lookup ].

(** Run a program on a symbolic heap: unfold the monad and resolve each
    heap access from the hypotheses. *)
Ltac exec_run :=
  repeat (first
    [ progress unfold functor_identity, homomorphism, map, apply, get_unit,
        Identity_unit, unit, Identity_new, Identity_eq, get_value, run_uret,
        mbind, load, ret, raise, alloc, randrange
    | match goal with
      | H : ?g ?x = RVal _ |- context [?g ?x] => rewrite H
      | |- context [nth_error ?xs ?l] =>
          let E := fresh "E" in
          eassert (E : nth_error xs l = Some _) by heap_lookup;
          rewrite E; clear E
      end ]; cbn).

Lemma scalar_eq_refl_func (l : loc) : scalar_eq (VFunc l) (VFunc l) = true.
Proof. cbn. apply Nat.eqb_refl. Qed.

(** C6 (counterexample): [Identity(float('nan'))] is not equal to
    [map(Identity(float('nan')), identity)]: the payloads are compared with
    [==] and NaN is not equal to itself. *)
Lemma functor_identity_nan :
  result_of (functor_identity 6 (VObj 0) (VFunc 1)) st_nan = Some false.
Proof. vm_compute. reflexivity. Qed.

(** C6 (amended): [map(m, identity) == m] holds when the payload of [m]
    is a scalar equal to itself, or a raw function whose results on
    integers are values (not containers) equal to themselves. *)
Lemma functor_identity_holds (n : nat) (s : state) (lm lid : loc) (p : val) :
  nth_error (heap s) lm = Some (OIdentity p) ->
  nth_error (heap s) lid = Some (OFun CIdentity) ->
  ((is_Identity p = false /\ callable p = false /\ scalar_eq p p = true) \/
   (exists lh g, p = VFunc lh /\ nth_error (heap s) lh = Some (OFun (CUser g)) /\
      forall z, exists w, g (VInt z) = RVal w /\ is_Identity w = false /\
                          scalar_eq w w = true)) ->
  exists s', functor_identity (S (S (S n))) (VObj lm) (VFunc lid) s = Ret true s'.
Proof.
  intros Hm Hid [[H1 [H2 H3]] | (lh & g & -> & Hh & Hg)].
  - destruct p; try discriminate; eexists; exec_run; cbn in H3; rewrite ?H3;
    reflexivity.
  - destruct (Hg (rng s (rpos s) mod 100)) as (w & Hw & Hw1 & Hw2).
    destruct w; try discriminate; eexists; exec_run; cbn in Hw2; rewrite ?Hw2;
      reflexivity.
Qed.

Lemma functor_identity_holds_witness :
  exists s', functor_identity 3 (VObj 0) (VFunc 1) st_int = Ret true s'.
Proof.
  apply (functor_identity_holds 0 st_int 0%nat 1%nat (VInt 5));
    [reflexivity | reflexivity | left; repeat split].
Defined.

(** C7 (counterexample): with [f = lambda x: float('nan')] and [a = 1],
    [apply(unit(f), unit(a)) == unit(f(a))] is [False]: both sides wrap
    NaN, which is not equal to itself. *)
Lemma homomorphism_nan :
  result_of (homomorphism 6 (VInt 1) (VFunc 0)) st_nan_fun = Some false.
Proof. vm_compute. reflexivity. Qed.

(** C7 (amended): the homomorphism law holds for a scalar [a] and a raw
    function [f] whose result [f(a)] is a scalar equal to itself. *)
Lemma homomorphism_holds (n : nat) (s : state) (lf : loc) (g : val -> uret)
    (a w : val) :
  nth_error (heap s) lf = Some (OFun (CUser g)) ->
  is_Identity a = false -> callable a = false ->
  g a = RVal w ->
  is_Identity w = false -> callable w = false -> scalar_eq w w = true ->
  exists s', homomorphism (S (S n)) a (VFunc lf) s = Ret true s'.
Proof.
  intros Hf Ha1 Ha2 Hg Hw1 Hw2 Hw3.
  destruct a; try discriminate; destruct w; try discriminate;
    eexists; exec_run; cbn in Hw3; rewrite ?Hw3; reflexivity.
Qed.

Lemma homomorphism_holds_witness :
  exists s', homomorphism 2 (VInt 3) (VFunc 0) st_plus_one = Ret true s'.
Proof.
  apply (homomorphism_holds 0 st_plus_one 0%nat plus_one (VInt 3) (VInt 4));
    reflexivity.
Defined.

Lemma nth_error_set_nth {A} (xs : list A) (l : nat) (a : A) :
  (l < List.length xs)%nat -> nth_error (set_nth xs l a) l = Some a.
Proof.
  revert l; induction xs as [|x xs IH]; intros l Hl; cbn in Hl; [lia|].
  destruct l; cbn; [reflexivity | apply IH; lia].
Qed.

(** Every hashable value other than a NaN finds itself in the
    [lru_cache] dictionary. *)
Lemma key_eq_refl (x : val) :
  hashable x = true -> nan_val x = false -> key_eq x x = true.
Proof.
  intros H Hn; destruct x; try discriminate; cbn in Hn |- *.
  - apply Z.eqb_refl.
  - apply Z.eqb_refl.
  - unfold PrimFloat.is_nan in Hn. now destruct (PrimFloat.eqb f f).
  - unfold PrimFloat.is_nan in Hn.
    now destruct (PrimFloat.eqb re re), (PrimFloat.eqb im im).
  - apply String.eqb_refl.
  - reflexivity.
  - apply Nat.eqb_refl.
Qed.

Lemma is_nan_zero : PrimFloat.is_nan PrimFloat.zero = false.
Proof. reflexivity. Qed.

(** C4 (counterexample): an [Identity] instance is unhashable, so the
    wrapper of [_modify] raises [TypeError] on it instead of returning
    [pure(f(x))]. *)
Lemma modify_unhashable_input :
  call 6 (VFunc 1) (VObj 2) st_modify = Raise TypeError.
Proof. reflexivity. Qed.

(** Outside the claim's corrected statement: an [int] result beyond the
    float range makes [math.isnan] raise [OverflowError]. *)
Lemma modify_int_overflow :
  call 6 (VFunc 1) (VInt (2 ^ 1024)) st_modify = Raise OverflowError.
Proof. vm_compute. reflexivity. Qed.

(** The cache keys of [lru_cache]: after [f(True)], the call [f(1)] does
    not find the entry of [True] (a tuple key against a bare [int] key)
    and allocates a second container. *)
Lemma modify_bool_int_keys_distinct :
  result_of (r1 <- call 6 (VFunc 1) (VBool true);;
             r2 <- call 6 (VFunc 1) (VInt 1);; ret (r1, r2)) st_modify
  = Some (VObj 3, VObj 4).
Proof. vm_compute. reflexivity. Qed.

Lemma call_S (n : nat) (fv x : val) : call (S n) fv x = call_step (call n) fv x.
Proof. reflexivity. Qed.

Ltac exec_modify :=
  repeat (first
    [ rewrite call_S
    | progress unfold call_step, modify_call, cache_put, store, isnan, complex_parts,
        Identity_unit, unit, Identity_new, get_value, run_uret,
        mbind, load, ret, raise, alloc
    | match goal with
      | H : hashable ?x = true |- context [hashable ?x] => rewrite H
      | H : lookup_cache ?x ?c = _ |- context [lookup_cache ?x ?c] => rewrite H
      | H : ?g ?x = RVal _ |- context [?g ?x] => rewrite H
      | |- context [Z.leb float_int_limit ?t] =>
          replace (Z.leb float_int_limit t) with false
            by (symmetry; apply Z.leb_gt;
                match goal with
                | H : fits_float _ = true |- _ =>
                    cbn in H; try apply Z.ltb_lt in H
                end; unfold float_int_limit in *; lia)
      | H : hashable ?x = true, Hn : nan_val ?x = false
        |- context [key_eq ?x ?x] =>
          rewrite (key_eq_refl x H Hn)
      | |- context [nth_error (set_nth ?xs ?l ?o) ?l] =>
          rewrite (nth_error_set_nth xs l o) by (rewrite ?length_app; cbn; lia)
      | |- context [nth_error ?xs ?l] =>
          let E := fresh "E" in
          eassert (E : nth_error xs l = Some _) by heap_lookup;
          rewrite E; clear E
      end ]; cbn).

(** C4 (amended): on a hashable input [x] not yet in the cache, the
    wrapper built by [_modify] from a raw function [f] whose result [f(x)]
    is a value [v] (not a container, and not an [int] beyond the float
    range) returns [pure(f(x))], the fresh [Identity(v)], unless [v] is a
    float or complex with a NaN part, in which case it returns a second
    fresh [Identity(None)]; it records that output under the key of [x],
    and when [x] is not a NaN a second call with [x] returns the very same
    object without any other effect.  "Not yet in the cache" is
    [lru_cache]'s own key matching: [x = True] is not cached by an entry
    for [1]. *)
Lemma modify_spec (n : nat) (s : state) (lm lg : loc) (g : val -> uret)
    (cache : list (val * val)) (x v : val) :
  nth_error (heap s) lm = Some (OFun (CModify (VFunc lg) cache)) ->
  nth_error (heap s) lg = Some (OFun (CUser g)) ->
  hashable x = true ->
  lookup_cache x cache = None ->
  g x = RVal v -> is_Identity v = false -> fits_float v = true ->
  let len := List.length (heap s) in
  let out := if nan_val v then VObj (S len) else VObj len in
  let s' := mkState
      (set_nth (heap s ++ (if nan_val v then [OIdentity v; OIdentity VNone]
                           else [OIdentity v]))
               lm (OFun (CModify (VFunc lg) ((x, out) :: cache))))
      (rng s) (rpos s) in
  call (S (S n)) (VFunc lm) x s = Ret out s' /\
  (nan_val x = false -> call (S (S n)) (VFunc lm) x s' = Ret out s').
Proof.
  intros Hm Hg Hx Hc Hv Hv1 Hv2. cbv zeta.
  assert (Hlm : (lm < List.length (heap s))%nat).
  { apply nth_error_Some. now rewrite Hm. }
  split.
  - destruct v; try discriminate; exec_modify.
    + reflexivity.
    + destruct b; exec_modify; reflexivity.
    + destruct (PrimFloat.is_nan f); exec_modify;
        rewrite ?length_app, ?Nat.add_1_r, <- ?app_assoc; reflexivity.
    + destruct (PrimFloat.is_nan im); exec_modify;
        [| destruct (PrimFloat.is_nan re); exec_modify];
        rewrite ?length_app, ?Nat.add_1_r, <- ?app_assoc; reflexivity.
    + reflexivity.
    + reflexivity.
    + reflexivity.
  - intros Hn. exec_modify. reflexivity.
Qed.

Lemma modify_spec_witness :
  call 2 (VFunc 1) (VInt 3) st_modify = Ret (VObj 3) st_modify_after /\
  call 2 (VFunc 1) (VInt 3) st_modify_after = Ret (VObj 3) st_modify_after.
Proof.
  destruct (modify_spec 0 st_modify 1%nat 0%nat plus_one [] (VInt 3) (VInt 4)
              eq_refl eq_refl eq_refl eq_refl eq_refl eq_refl eq_refl) as [H1 H2].
  exact (conj H1 (H2 eq_refl)).
Defined.

(** ** The heap only grows *)

Lemma length_set_nth {A} (xs : list A) (l : nat) (a : A) :
  List.length (set_nth xs l a) = List.length xs.
Proof.
  revert l; induction xs as [|x xs IH]; intros l; [reflexivity|].
  destruct l; cbn; [reflexivity | now rewrite IH].
Qed.

Lemma Grows_ret {A} (a : A) : Grows (ret a).
Proof. intros s b s' H. injection H as _ <-. lia. Qed.

Lemma Grows_raise {A} (e : exn) : Grows (A := A) (raise e).
Proof. intros s b s' H. discriminate. Qed.

Lemma Grows_bind {A B} (m : M A) (k : A -> M B) :
  Grows m -> (forall a, Grows (k a)) -> Grows (mbind m k).
Proof.
  intros Hm Hk s b s' H. unfold mbind in H.
  destruct (m s) as [a s1|] eqn:E; [|discriminate].
  specialize (Hm _ _ _ E). specialize (Hk a _ _ _ H). lia.
Qed.

Lemma Grows_load (l : loc) : Grows (load l).
Proof.
  intros s o s' H. unfold load in H.
  destruct (nth_error (heap s) l); [injection H as _ <-; lia | discriminate].
Qed.

Lemma Grows_alloc (o : obj) : Grows (alloc o).
Proof. intros s l s' H. injection H as _ <-. cbn. rewrite length_app. lia. Qed.

Lemma Grows_store (l : loc) (o : obj) : Grows (store l o).
Proof. intros s u s' H. injection H as _ <-. cbn. rewrite length_set_nth. lia. Qed.

Lemma Grows_randrange (lo hi : Z) : Grows (randrange lo hi).
Proof. intros s i s' H. injection H as _ <-. cbn. lia. Qed.

Create HintDb grows.
#[local] Hint Resolve Grows_ret Grows_raise Grows_load Grows_alloc Grows_store
  Grows_randrange : grows.

(** Split a program along its binds and branches. *)
Ltac grows_tac :=
  repeat first
    [ progress eauto with grows
    | apply Grows_bind; intros
    | match goal with
      | |- Grows (if ?b then _ else _) => destruct b
      | |- Grows (match ?t with _ => _ end) => destruct t
      end ].

Lemma Grows_get_value (v : val) : Grows (get_value v).
Proof. unfold get_value. grows_tac. Qed.

Lemma Grows_Identity_unit (v : val) : Grows (Identity_unit v).
Proof. unfold Identity_unit, unit, Identity_new. grows_tac. Qed.

Lemma Grows_run_uret (r : uret) : Grows (run_uret r).
Proof. unfold run_uret, Identity_new. grows_tac. Qed.

Lemma Grows_isnan (v : val) : Grows (isnan v).
Proof. unfold isnan. grows_tac. Qed.

Lemma Grows_cache_put (l : loc) (x out : val) : Grows (cache_put l x out).
Proof. unfold cache_put. grows_tac. Qed.

#[local] Hint Resolve Grows_get_value Grows_Identity_unit Grows_run_uret
  Grows_isnan Grows_cache_put : grows.

Lemma Grows_modify_call (callf : val -> val -> M val) (l : loc) (fn : val)
    (cache : list (val * val)) (x : val) :
  (forall f y, Grows (callf f y)) -> Grows (modify_call callf l fn cache x).
Proof. intros Hc. unfold modify_call. grows_tac. Qed.

Lemma Grows_call (n : nat) (fv x : val) : Grows (call n fv x).
Proof.
  revert fv x; induction n as [|n IH]; intros fv x; cbn; [grows_tac|].
  unfold call_step.
  pose proof (Grows_modify_call (call n)).
  grows_tac.
Qed.

Lemma get_value_pure (v : val) (s s' : state) (a : val) :
  get_value v s = Ret a s' -> s' = s.
Proof.
  unfold get_value, mbind, load. destruct v; try discriminate.
  destruct (nth_error (heap s) l) as [[]|]; cbn; try discriminate.
  now intros [= _ <-].
Qed.

(** The result of [map]: a fresh [Identity], allocated past the heap the
    call started from, or else the [Identity] that [function] returned
    on the scalar payload. *)
Lemma map_fresh_or_returned (n : nat) (s s' : state) (m fn v : val) :
  map n m fn s = Ret v s' ->
  (exists l, v = VObj l /\ (List.length (heap s) <= l)%nat) \/
  (exists mv, get_value m s = Ret mv s /\ callable mv = false /\
              call n fn mv s = Ret v s' /\ is_Identity v = true).
Proof.
  intros H. unfold map, mbind in H.
  destruct (get_unit m s) as [[] s0|] eqn:E0; [|discriminate].
  assert (s0 = s) as -> by (destruct m; unfold get_unit, ret, raise in E0; congruence).
  destruct (get_value m s) as [mv s1|] eqn:E1; [|discriminate].
  pose proof (get_value_pure _ _ _ _ E1) as ->.
  destruct (callable mv) eqn:Ec; cbn in H.
  - injection H as <- _. left. eexists; split; [reflexivity|].
    rewrite length_app. cbn. lia.
  - rewrite E1 in H.
    destruct (call n fn mv s) as [r s2|] eqn:E2; [|discriminate].
    pose proof (Grows_call n fn mv _ _ _ E2) as Hg.
    unfold Identity_unit, unit, Identity_new, mbind, alloc, ret in H.
    destruct (is_Identity r) eqn:Ei; cbn in H.
    + injection H as <- <-. right. exists mv. repeat split; assumption.
    + injection H as <- _. left. eexists; split; [reflexivity|]. exact Hg.
Qed.

(** C2 (amended): [map(m, f)] returns a fresh [Identity] (one allocated
    by the call, beyond every object that existed before it, the
    arguments included) unless [f(m.value)] is itself an [Identity]; in
    that case [map(m, f)] returns that very object, and so does
    [apply(u, m)] for [u.value = f]; [apply(u, w)] is [map(w, u.value)]
    and its result is fresh in the same way; [bind(m, f)] returns exactly
    what [f(m.value)] returns. *)
Lemma map_apply_bind_results (n : nat) (s s' : state) (m fn v : val) :
  (map n m fn s = Ret v s' ->
   (exists l, v = VObj l /\ (List.length (heap s) <= l)%nat) \/
   (exists mv, get_value m s = Ret mv s /\ callable mv = false /\
               call n fn mv s = Ret v s' /\ is_Identity v = true)) /\
  (apply n fn m s = Ret v s' ->
   (exists l, v = VObj l /\ (List.length (heap s) <= l)%nat) \/
   (exists fu mv, get_value fn s = Ret fu s /\ get_value m s = Ret mv s /\
                  callable mv = false /\ call n fu mv s = Ret v s' /\
                  is_Identity v = true)) /\
  (forall mv, get_value m s = Ret mv s -> callable mv = false ->
   call n fn mv s = Ret v s' -> is_Identity v = true ->
   map n m fn s = Ret v s' /\
   (forall u, get_value u s = Ret fn s -> apply n u m s = Ret v s')) /\
  bind n m fn s = (mv <- get_value m;; call n fn mv) s.
Proof.
  assert (Hmap : forall mv, get_value m s = Ret mv s -> callable mv = false ->
            call n fn mv s = Ret v s' -> is_Identity v = true ->
            map n m fn s = Ret v s').
  { intros mv Hg Hc Hcall Hi.
    assert (Hu : get_unit m s = Ret tt s)
      by (destruct m; try discriminate; reflexivity).
    unfold map. rewrite (mbind_Ret _ _ _ _ _ Hu). cbv beta.
    rewrite (mbind_Ret _ _ _ _ _ Hg). cbv beta. rewrite Hc. cbn [negb].
    assert (E : (mv' <- get_value m;; call n fn mv') s = Ret v s')
      by (rewrite (mbind_Ret _ _ _ _ _ Hg); exact Hcall).
    rewrite (mbind_Ret _ _ _ _ _ E).
    unfold Identity_unit. rewrite Hi. reflexivity. }
  split; [|split; [|split]].
  - apply map_fresh_or_returned.
  - intros H. unfold apply, mbind in H.
    destruct (get_value fn s) as [fu s1|] eqn:E1; [|discriminate].
    pose proof (get_value_pure _ _ _ _ E1) as ->.
    destruct (map_fresh_or_returned _ _ _ _ _ _ H) as [Hl | (mv & Hmv)].
    + now left.
    + right. exists fu, mv. tauto.
  - intros mv Hg Hc Hcall Hi. split; [now apply (Hmap mv)|].
    intros u Hu. unfold apply. rewrite (mbind_Ret _ _ _ _ _ Hu).
    now apply (Hmap mv).
  - reflexivity.
Qed.

Lemma map_apply_bind_results_witness :
  ((exists l, VObj 0 = VObj l /\ (List.length (heap st_self) <= l)%nat) \/
   (exists mv, get_value (VObj 0) st_self = Ret mv st_self /\ callable mv = false /\
               call 6 (VFunc 1) mv st_self = Ret (VObj 0) st_self /\
               is_Identity (VObj 0) = true)) /\
  map 6 (VObj 0) (VFunc 1) st_self = Ret (VObj 0) st_self.
Proof.
  destruct (map_apply_bind_results 6 st_self st_self (VObj 0) (VFunc 1) (VObj 0))
    as (H1 & _ & H3 & _).
  split.
  - apply H1. reflexivity.
  - apply (H3 (VInt 5)); reflexivity.
Defined.

(** * Further properties: error paths, nesting and the laws of the tests *)

(** [p == p] on an immediate value fails exactly on NaN. *)
Lemma scalar_eq_self (p : val) :
  is_Identity p = false -> callable p = false -> scalar_eq p p = negb (nan_val p).
Proof.
  intros H1 H2; destruct p; try discriminate; cbn.
  - now rewrite Z.eqb_refl.
  - now rewrite Z.eqb_refl.
  - unfold PrimFloat.is_nan. now destruct (PrimFloat.eqb f f).
  - unfold PrimFloat.is_nan. now destruct (PrimFloat.eqb re re), (PrimFloat.eqb im im).
  - now rewrite String.eqb_refl.
  - reflexivity.
Qed.

(** [m == m] for a container of an immediate value. *)
Lemma py_eq_self (n : nat) (s : state) (l : loc) (p : val) :
  nth_error (heap s) l = Some (OIdentity p) ->
  is_Identity p = false -> callable p = false ->
  py_eq (S (S n)) (VObj l) (VObj l) s = Ret (negb (nan_val p)) s.
Proof.
  intros H H1 H2. rewrite <- scalar_eq_self by assumption.
  change (py_eq (S (S n)) (VObj l) (VObj l))
    with (Identity_eq (call (S n)) (py_eq (S n)) l (VObj l)).
  destruct p; try discriminate; exec_heap; reflexivity.
Qed.

Lemma nth_error_set_nth_other {A} (xs : list A) (l l' : nat) (a : A) :
  l <> l' -> nth_error (set_nth xs l a) l' = nth_error xs l'.
Proof.
  revert l l'; induction xs as [|x xs IH]; intros [|l] [|l'] H; cbn;
    try reflexivity; try congruence.
  apply IH. congruence.
Qed.

(** A second call of the wrapper with a cached input. *)
Lemma modify_cached (n : nat) (s : state) (lm : loc) (fn : val)
    (cache : list (val * val)) (x r : val) :
  nth_error (heap s) lm = Some (OFun (CModify fn cache)) ->
  hashable x = true -> lookup_cache x cache = Some r ->
  call (S n) (VFunc lm) x s = Ret r s.
Proof. intros Hm Hx Hc. exec_modify. reflexivity. Qed.

(** The first call of the wrapper on an input, as in its claim. *)
Lemma modify_first_call (n : nat) (s : state) (lm lg : loc) (g : val -> uret)
    (cache : list (val * val)) (x v : val) :
  nth_error (heap s) lm = Some (OFun (CModify (VFunc lg) cache)) ->
  nth_error (heap s) lg = Some (OFun (CUser g)) ->
  hashable x = true ->
  lookup_cache x cache = None ->
  g x = RVal v -> is_Identity v = false -> fits_float v = true ->
  let len := List.length (heap s) in
  let out := if nan_val v then VObj (S len) else VObj len in
  call (S (S n)) (VFunc lm) x s =
  Ret out (mkState
      (set_nth (heap s ++ (if nan_val v then [OIdentity v; OIdentity VNone]
                           else [OIdentity v]))
               lm (OFun (CModify (VFunc lg) ((x, out) :: cache))))
      (rng s) (rpos s)).
Proof.
  intros Hm Hg Hx Hc Hv Hv1 Hv2. cbv zeta.
  assert (Hlm : (lm < List.length (heap s))%nat).
  { apply nth_error_Some. now rewrite Hm. }
  destruct v; try discriminate; exec_modify.
  - reflexivity.
  - destruct b; exec_modify; reflexivity.
  - destruct (PrimFloat.is_nan f); exec_modify;
      rewrite ?length_app, ?Nat.add_1_r, <- ?app_assoc; reflexivity.
  - destruct (PrimFloat.is_nan im); exec_modify;
      [| destruct (PrimFloat.is_nan re); exec_modify];
      rewrite ?length_app, ?Nat.add_1_r, <- ?app_assoc; reflexivity.
  - reflexivity.
  - reflexivity.
  - reflexivity.
Qed.

(** The first call of the wrapper, through the heap it leaves: a
    container of [modify_payload v], recorded in the cache, with every
    other object kept. *)
Lemma modify_first_call_heap (n : nat) (s : state) (lm lg : loc) (g : val -> uret)
    (cache : list (val * val)) (x v : val) :
  nth_error (heap s) lm = Some (OFun (CModify (VFunc lg) cache)) ->
  nth_error (heap s) lg = Some (OFun (CUser g)) ->
  hashable x = true ->
  lookup_cache x cache = None ->
  g x = RVal v -> is_Identity v = false -> fits_float v = true ->
  exists lo s',
    call (S (S n)) (VFunc lm) x s = Ret (VObj lo) s' /\
    nth_error (heap s') lo = Some (OIdentity (modify_payload v)) /\
    nth_error (heap s') lm = Some (OFun (CModify (VFunc lg) ((x, VObj lo) :: cache))) /\
    (forall l o, l <> lm -> nth_error (heap s) l = Some o ->
                 nth_error (heap s') l = Some o).
Proof.
  intros Hm Hg Hx Hc Hv Hv1 Hv2.
  pose proof (modify_first_call n s lm lg g cache x v Hm Hg Hx Hc Hv Hv1 Hv2) as E.
  cbv zeta in E.
  assert (Hlm : (lm < List.length (heap s))%nat).
  { apply nth_error_Some. now rewrite Hm. }
  unfold modify_payload.
  destruct (nan_val v); do 2 eexists; (split; [exact E|]); cbn [heap];
    (split; [| split]).
  - rewrite nth_error_set_nth_other by lia.
    rewrite nth_error_app2 by lia. now rewrite Nat.sub_succ_l, Nat.sub_diag by lia.
  - apply nth_error_set_nth. rewrite length_app. lia.
  - intros l o Hl Ho. rewrite nth_error_set_nth_other by congruence.
    now apply nth_error_app_old.
  - rewrite nth_error_set_nth_other by lia. apply nth_error_app_new.
  - apply nth_error_set_nth. rewrite length_app. lia.
  - intros l o Hl Ho. rewrite nth_error_set_nth_other by congruence.
    now apply nth_error_app_old.
Qed.

(** The payload that [_modify]'s wrapper stores is never NaN. *)
Lemma modify_payload_self (v : val) :
  is_Identity v = false -> callable v = false ->
  is_Identity (modify_payload v) = false /\ callable (modify_payload v) = false /\
  nan_val (modify_payload v) = false.
Proof.
  intros H1 H2. unfold modify_payload. destruct (nan_val v) eqn:E; auto.
Qed.

(** X6: the left identity law [bind(unit(Identity, x), f) == f(x)] of
    [test_bind] holds for [f] built by [_modify] from a raw function whose
    result on a hashable, uncached [x] other than a NaN is an immediate,
    non-callable value (within float range for an [int]), NaN included:
    both sides are the
    one memoised container, whose payload is not NaN. *)
Lemma left_identity_modify (n : nat) (s : state) (lm lg : loc) (g : val -> uret)
    (cache : list (val * val)) (x v : val) :
  nth_error (heap s) lm = Some (OFun (CModify (VFunc lg) cache)) ->
  nth_error (heap s) lg = Some (OFun (CUser g)) ->
  hashable x = true -> nan_val x = false -> lookup_cache x cache = None ->
  g x = RVal v -> is_Identity v = false -> callable v = false ->
  fits_float v = true ->
  exists s', left_identity (S (S n)) x (VFunc lm) s = Ret true s'.
Proof.
  intros Hm Hg Hx Hxn Hc Hv Hv1 Hv2 Hv3.
  set (s1 := mkState (heap s ++ [OIdentity x]) (rng s) (rpos s)).
  assert (E0 : unit x s = Ret (VObj (List.length (heap s))) s1) by reflexivity.
  destruct (modify_first_call_heap n s1 lm lg g cache x v)
    as (lo & s2 & E1 & Hlo & Hlm & _);
    try apply nth_error_app_old; try assumption.
  exists s2. unfold left_identity.
  rewrite (mbind_Ret _ _ _ _ _ E0). cbv beta.
  assert (E2 : bind (S (S n)) (VObj (List.length (heap s))) (VFunc lm) s1 = Ret (VObj lo) s2).
  { unfold bind. rewrite (mbind_Ret _ _ _ _ _ (get_value_obj s1 _ x (nth_error_app_new _ _))).
    exact E1. }
  rewrite (mbind_Ret _ _ _ _ _ E2). cbv beta.
  assert (E3 : call (S (S n)) (VFunc lm) x s2 = Ret (VObj lo) s2).
  { apply (modify_cached _ _ _ _ _ _ _ Hlm Hx). cbn. now rewrite (key_eq_refl x Hx Hxn). }
  rewrite (mbind_Ret _ _ _ _ _ E3). cbv beta.
  destruct (modify_payload_self v Hv1 Hv2) as (P1 & P2 & P3).
  rewrite (py_eq_self n s2 lo _ Hlo P1 P2), P3. reflexivity.
Qed.

(** X7: the associativity law of [test_bind] holds for two distinct
    wrappers [f] and [g] built by [_modify] and a container of a hashable
    [x], not a NaN, not cached by [f], when the raw results are immediate,
    non-callable values (within float range for an [int]) and the payload
    of [f(x)] is not cached by [g]: the right side gets both memoised
    containers back, and compares the same object with itself. *)
Lemma associativity_modify (n : nat) (s : state) (lm lf lf0 lg lg0 : loc)
    (f g : val -> uret) (cf cg : list (val * val)) (x v w : val) :
  nth_error (heap s) lm = Some (OIdentity x) ->
  nth_error (heap s) lf = Some (OFun (CModify (VFunc lf0) cf)) ->
  nth_error (heap s) lf0 = Some (OFun (CUser f)) ->
  nth_error (heap s) lg = Some (OFun (CModify (VFunc lg0) cg)) ->
  nth_error (heap s) lg0 = Some (OFun (CUser g)) ->
  lf <> lg ->
  hashable x = true -> nan_val x = false -> lookup_cache x cf = None ->
  f x = RVal v -> is_Identity v = false -> callable v = false -> fits_float v = true ->
  lookup_cache (modify_payload v) cg = None ->
  g (modify_payload v) = RVal w ->
  is_Identity w = false -> callable w = false -> fits_float w = true ->
  exists s', associativity (S (S n)) (VObj lm) (VFunc lf) (VFunc lg) s = Ret true s'.
Proof.
  intros Hm Hf Hf0 Hg Hg0 Hfg Hx Hxn Hcf Hv Hv1 Hv2 Hv3 Hcg Hw Hw1 Hw2 Hw3.
  destruct (modify_payload_self v Hv1 Hv2) as (P1 & P2 & P3).
  assert (Hv' : hashable (modify_payload v) = true)
    by (destruct (modify_payload v); easy).
  destruct (modify_first_call_heap n s lf lf0 f cf x v)
    as (a & s1 & E1 & Ha & Hlf1 & Hold1); try assumption.
  assert (Hg1 : nth_error (heap s1) lg = Some (OFun (CModify (VFunc lg0) cg)))
    by (apply Hold1; congruence).
  assert (Hg01 : nth_error (heap s1) lg0 = Some (OFun (CUser g)))
    by (apply Hold1; [congruence | assumption]).
  destruct (modify_first_call_heap n s1 lg lg0 g cg (modify_payload v) w)
    as (b & s2 & E2 & Hb & Hlg2 & Hold2); try assumption.
  assert (Hm2 : nth_error (heap s2) lm = Some (OIdentity x))
    by (apply Hold2; [congruence | apply Hold1; [congruence | assumption]]).
  assert (Hlf2 : nth_error (heap s2) lf =
                 Some (OFun (CModify (VFunc lf0) ((x, VObj a) :: cf))))
    by (apply Hold2; congruence).
  assert (Ha2 : nth_error (heap s2) a = Some (OIdentity (modify_payload v)))
    by (apply Hold2; congruence).
  assert (B1 : bind (S (S n)) (VObj lm) (VFunc lf) s = Ret (VObj a) s1).
  { unfold bind. now rewrite (mbind_Ret _ _ _ _ _ (get_value_obj s lm x Hm)). }
  assert (B2 : bind (S (S n)) (VObj a) (VFunc lg) s1 = Ret (VObj b) s2).
  { unfold bind. now rewrite (mbind_Ret _ _ _ _ _ (get_value_obj s1 a _ Ha)). }
  exists s2. unfold associativity.
  rewrite (mbind_Ret _ _ _ _ _ B1). cbv beta.
  rewrite (mbind_Ret _ _ _ _ _ B2). cbv beta.
  rewrite (mbind_Ret _ _ _ _ _ (get_value_obj s2 lm x Hm2)). cbv beta.
  assert (E3 : call (S (S n)) (VFunc lf) x s2 = Ret (VObj a) s2).
  { apply (modify_cached _ _ _ _ _ _ _ Hlf2 Hx). cbn. now rewrite (key_eq_refl x Hx Hxn). }
  rewrite (mbind_Ret _ _ _ _ _ E3). cbv beta.
  assert (E4 : call (S (S n)) (VFunc lg) (modify_payload v) s2 = Ret (VObj b) s2).
  { apply (modify_cached _ _ _ _ _ _ _ Hlg2 Hv'). cbn. now rewrite (key_eq_refl _ Hv' P3). }
  assert (B4 : bind (S (S n)) (VObj a) (VFunc lg) s2 = Ret (VObj b) s2).
  { unfold bind. now rewrite (mbind_Ret _ _ _ _ _ (get_value_obj s2 a _ Ha2)). }
  rewrite (mbind_Ret _ _ _ _ _ B4). cbv beta.
  destruct (modify_payload_self w Hw1 Hw2) as (Q1 & Q2 & Q3).
  rewrite (py_eq_self n s2 b _ Hb Q1 Q2), Q3. reflexivity.
Qed.

(** X1: comparing a container with anything that is not a container
    ([a == 3], [3 == a], or a function object) raises [AttributeError],
    in either order: [__eq__] reads [other.value]. *)
Lemma eq_non_container_raises (n : nat) (s : state) (l : loc) (p v : val) :
  nth_error (heap s) l = Some (OIdentity p) -> is_Identity v = false ->
  py_eq (S n) (VObj l) v s = Raise AttributeError /\
  py_eq (S n) v (VObj l) s = Raise AttributeError.
Proof.
  intros H Hv.
  change (py_eq (S n) (VObj l) v) with (Identity_eq (call n) (py_eq n) l v).
  split.
  - destruct v; try discriminate; exec_heap; destruct (callable p); exec_heap; reflexivity.
  - destruct v; try discriminate;
      change (py_eq (S n) ?a (VObj l)) with (Identity_eq (call n) (py_eq n) l a);
      exec_heap; destruct (callable p); exec_heap; reflexivity.
Qed.

(** X2: [map], [apply] and [bind] on an argument that is not a
    container raise [AttributeError] ([monad.unit],
    [lifted_function.value], [monad.value]). *)
Lemma ops_non_container_raise (n : nat) (s : state) (v fn m : val) :
  is_Identity v = false ->
  map n v fn s = Raise AttributeError /\
  apply n v m s = Raise AttributeError /\
  bind n v fn s = Raise AttributeError.
Proof. intros H. destruct v; try discriminate; repeat split. Qed.

(** X3: with an argument [function] that is not callable, [bind] raises
    [TypeError], and so does [map] on a container of an immediate value;
    [map] on a container of a function does not call [function]: it
    succeeds, and the error comes only when the new payload is called. *)
Lemma non_callable_function (n : nat) (s : state) (lm : loc) (p fn x : val) :
  nth_error (heap s) lm = Some (OIdentity p) -> callable fn = false ->
  bind (S n) (VObj lm) fn s = Raise TypeError /\
  (callable p = false -> map (S n) (VObj lm) fn s = Raise TypeError) /\
  (callable p = true ->
   map (S n) (VObj lm) fn s =
   Ret (VObj (S (List.length (heap s))))
       (mkState (heap s ++ [OFun (CMapLambda (VObj lm) fn);
                            OIdentity (VFunc (List.length (heap s)))])
                (rng s) (rpos s)) /\
   map_call_at (S (S n)) (VObj lm) fn x s = Raise TypeError).
Proof.
  intros H Hf. split; [|split].
  - unfold bind. destruct fn; try discriminate; exec_run; reflexivity.
  - intros Hp. destruct fn; try discriminate; destruct p; try discriminate;
      exec_run; reflexivity.
  - intros Hp. destruct p; try discriminate. split.
    + unfold map, get_unit, mbind at 1, ret at 1.
      rewrite (mbind_Ret _ _ _ _ _ (get_value_obj _ _ _ H)). cbn.
      unfold ret. rewrite length_app, <- app_assoc. cbn. f_equal. f_equal. lia.
    + unfold map_call_at. destruct fn; try discriminate; exec_run;
        rewrite ?Nat.eqb_refl; reflexivity.
Qed.

(** X4: on a container of a function [h], [map(map(m, f), g)] has the
    payload [lambda x: h(f(g(x)))]: the function mapped last runs first. *)
Lemma map_map_function_payload (n : nat) (s : state) (lm lh lf lg : loc)
    (h f g : val -> uret) (x a b c : val) :
  nth_error (heap s) lm = Some (OIdentity (VFunc lh)) ->
  nth_error (heap s) lh = Some (OFun (CUser h)) ->
  nth_error (heap s) lf = Some (OFun (CUser f)) ->
  nth_error (heap s) lg = Some (OFun (CUser g)) ->
  g x = RVal a -> f a = RVal b -> h b = RVal c ->
  exists s', map_map_at (S (S (S n))) (VObj lm) (VFunc lf) (VFunc lg) x s = Ret c s'.
Proof.
  intros Hm Hh Hf Hg Ha Hb Hc. unfold map_map_at.
  eexists. exec_run. reflexivity.
Qed.

(** X8: the right identity law [bind(m, m.unit) == m] of [test_bind] on a
    container of an immediate value [p]: it allocates one [Identity(p)]
    and answers [True] unless [p] is a NaN. *)
Lemma right_identity_holds (n : nat) (s : state) (lm lu : loc) (p : val) :
  nth_error (heap s) lm = Some (OIdentity p) ->
  nth_error (heap s) lu = Some (OFun CUnit) ->
  is_Identity p = false -> callable p = false ->
  right_identity (S (S n)) (VObj lm) (VFunc lu) s =
  Ret (negb (nan_val p)) (mkState (heap s ++ [OIdentity p]) (rng s) (rpos s)).
Proof.
  intros Hm Hu H1 H2. rewrite <- scalar_eq_self by assumption.
  unfold right_identity, bind. destruct p; try discriminate; exec_run; reflexivity.
Qed.

(** X9: on [Identity(Identity(q))] the right identity law raises
    [AttributeError]: [Identity.unit] returns the inner container, and the
    comparison reaches [q == Identity(q)], whose [__eq__] reads [q.value]. *)
Lemma right_identity_nested (n : nat) (s : state) (lm li lu : loc) (q : val) :
  nth_error (heap s) lm = Some (OIdentity (VObj li)) ->
  nth_error (heap s) li = Some (OIdentity q) ->
  nth_error (heap s) lu = Some (OFun CUnit) ->
  is_Identity q = false -> callable q = false ->
  right_identity (S (S (S n))) (VObj lm) (VFunc lu) s = Raise AttributeError.
Proof.
  intros Hm Hi Hu H1 H2.
  unfold right_identity, bind. destruct q; try discriminate; exec_run; reflexivity.
Qed.

(** X10: the identity law [apply(m.unit(identity), m) == m] of [test_app]
    on a container of an immediate value [p]: it allocates [Identity(identity)]
    and [Identity(p)] and answers [True] unless [p] is a NaN. *)
Lemma app_identity_holds (n : nat) (s : state) (lm lid : loc) (p : val) :
  nth_error (heap s) lm = Some (OIdentity p) ->
  nth_error (heap s) lid = Some (OFun CIdentity) ->
  is_Identity p = false -> callable p = false ->
  app_identity (S (S n)) (VObj lm) (VFunc lid) s =
  Ret (negb (nan_val p))
      (mkState (heap s ++ [OIdentity (VFunc lid); OIdentity p]) (rng s) (rpos s)).
Proof.
  intros Hm Hid H1 H2. rewrite <- scalar_eq_self by assumption.
  unfold app_identity. destruct p; try discriminate; exec_run;
    rewrite <- app_assoc; reflexivity.
Qed.

(** X11: the composition law [map(m, f_after_g) == map(map(m, g), f)] of
    [test_map] on a container of an immediate value [x], for raw [f] and
    [g] whose results are immediate values, with [f_after_g] the raw
    composition [lambda x: f(g(x))]: it answers [True] unless [f(g(x))]
    is a NaN. *)
Lemma functor_composition_scalar (n : nat) (s : state) (lm lf lg lfg : loc)
    (f g : val -> uret) (x y w : val) :
  nth_error (heap s) lm = Some (OIdentity x) ->
  nth_error (heap s) lf = Some (OFun (CUser f)) ->
  nth_error (heap s) lg = Some (OFun (CUser g)) ->
  nth_error (heap s) lfg = Some (OFun (CUser (compose_raw f g))) ->
  is_Identity x = false -> callable x = false ->
  g x = RVal y -> is_Identity y = false -> callable y = false ->
  f y = RVal w -> is_Identity w = false -> callable w = false ->
  exists s', functor_composition (S (S n)) (VObj lm) (VFunc lf) (VFunc lg) (VFunc lfg) s
             = Ret (negb (nan_val w)) s'.
Proof.
  intros Hm Hf Hg Hfg Hx1 Hx2 Hy Hy1 Hy2 Hw Hw1 Hw2.
  assert (Hc : compose_raw f g x = RVal w) by (unfold compose_raw; now rewrite Hy).
  rewrite <- scalar_eq_self by assumption.
  unfold functor_composition. eexists.
  do 8 (exec_run; rewrite ?Hx2, ?Hy1, ?Hy2, ?Hw1, ?Hw2; cbn).
  destruct w; try discriminate; exec_run; reflexivity.
Qed.

(** X12: on a hashable input [x] not yet cached, when the raw function
    returns a new container [Identity(v)] with [v] not NaN (and, for an
    [int], within float range), [_modify]'s wrapper returns that very
    container (no second wrapping by [Identity.unit]) and caches it. *)
Lemma modify_returns_container (n : nat) (s : state) (lm lg : loc) (g : val -> uret)
    (cache : list (val * val)) (x v : val) :
  nth_error (heap s) lm = Some (OFun (CModify (VFunc lg) cache)) ->
  nth_error (heap s) lg = Some (OFun (CUser g)) ->
  hashable x = true -> lookup_cache x cache = None ->
  g x = RNew v -> fits_float v = true -> nan_val v = false ->
  let len := List.length (heap s) in
  call (S (S n)) (VFunc lm) x s =
  Ret (VObj len)
      (mkState (set_nth (heap s ++ [OIdentity v]) lm
                        (OFun (CModify (VFunc lg) ((x, VObj len) :: cache))))
               (rng s) (rpos s)).
Proof.
  intros Hm Hg Hx Hc Hv Hv2 Hn. cbv zeta.
  assert (Hlm : (lm < List.length (heap s))%nat).
  { apply nth_error_Some. now rewrite Hm. }
  exec_modify. rewrite Hv. cbn. exec_modify.
  destruct v; try discriminate; exec_modify.
  - reflexivity.
  - destruct b; exec_modify; reflexivity.
  - cbn in Hn. rewrite is_nan_zero. cbn. rewrite Hn. exec_modify. reflexivity.
  - cbn in Hn. apply orb_false_elim in Hn as [Hi Hr]. rewrite Hi. exec_modify.
    rewrite Hr. exec_modify. reflexivity.
  - reflexivity.
  - reflexivity.
  - reflexivity.
  - reflexivity.
Qed.

(** X5: [m == m] on a container of an immediate value [p] answers [True]
    unless [p] is a NaN float or a complex with a NaN part, and changes
    nothing. *)
Lemma Identity_self_eq (n : nat) (s : state) (l : loc) (p : val) :
  nth_error (heap s) l = Some (OIdentity p) ->
  is_Identity p = false -> callable p = false ->
  py_eq (S (S n)) (VObj l) (VObj l) s = Ret (negb (nan_val p)) s.
Proof. apply py_eq_self. Qed.

(** ** Witnesses *)

Lemma eq_non_container_raises_witness :
  py_eq 1 (VObj 0) (VInt 5) st_int = Raise AttributeError /\
  py_eq 1 (VInt 5) (VObj 0) st_int = Raise AttributeError.
Proof. exact (eq_non_container_raises 0 st_int 0%nat (VInt 5) (VInt 5) eq_refl eq_refl). Defined.

Lemma ops_non_container_raise_witness :
  map 1 (VInt 5) (VFunc 1) st_int = Raise AttributeError /\
  apply 1 (VInt 5) (VObj 0) st_int = Raise AttributeError /\
  bind 1 (VInt 5) (VFunc 1) st_int = Raise AttributeError.
Proof. exact (ops_non_container_raise 1 st_int (VInt 5) (VFunc 1) (VObj 0) eq_refl). Defined.

Lemma non_callable_function_witness :
  bind 1 (VObj 0) (VInt 3) st_fun = Raise TypeError /\
  map_call_at 2 (VObj 0) (VInt 3) (VInt 7) st_fun = Raise TypeError.
Proof.
  destruct (non_callable_function 0 st_fun 0%nat (VFunc 1) (VInt 3) (VInt 7)
              eq_refl eq_refl) as (H1 & _ & H3).
  split; [exact H1 | exact (proj2 (H3 eq_refl))].
Defined.

Lemma map_map_function_payload_witness :
  exists s', map_map_at 3 (VObj 0) (VFunc 3) (VFunc 4) (VInt 3) st_law2 = Ret (VInt 9) s'.
Proof.
  apply (map_map_function_payload 0 st_law2 0%nat 1%nat 3%nat 4%nat plus_one times_two
           plus_one (VInt 3) (VInt 4) (VInt 8) (VInt 9)); reflexivity.
Defined.

Lemma Identity_self_eq_witness :
  py_eq 2 (VObj 0) (VObj 0) st_nan = Ret false st_nan /\
  py_eq 2 (VObj 0) (VObj 0) st_int = Ret true st_int.
Proof.
  split.
  - exact (Identity_self_eq 0 st_nan 0%nat (VFloat PrimFloat.nan) eq_refl eq_refl eq_refl).
  - exact (Identity_self_eq 0 st_int 0%nat (VInt 5) eq_refl eq_refl eq_refl).
Defined.

Lemma left_identity_modify_witness :
  exists s', left_identity 2 (VInt 3) (VFunc 1) st_modify = Ret true s'.
Proof.
  apply (left_identity_modify 0 st_modify 1%nat 0%nat plus_one [] (VInt 3) (VInt 4));
    reflexivity.
Defined.

Lemma associativity_modify_witness :
  exists s', associativity 2 (VObj 0) (VFunc 2) (VFunc 4) st_assoc = Ret true s'.
Proof.
  apply (associativity_modify 0 st_assoc 0%nat 2%nat 1%nat 4%nat 3%nat plus_one times_two
           [] [] (VInt 3) (VInt 4) (VInt 8)); try reflexivity; lia.
Defined.

Lemma right_identity_holds_witness :
  right_identity 2 (VObj 0) (VFunc 1) st_right =
  Ret true (init [OIdentity (VInt 5); OFun CUnit; OIdentity (VObj 0); OIdentity (VInt 5)]).
Proof. exact (right_identity_holds 0 st_right 0%nat 1%nat (VInt 5) eq_refl eq_refl eq_refl eq_refl). Defined.

Lemma right_identity_nested_witness :
  right_identity 3 (VObj 2) (VFunc 1) st_right = Raise AttributeError.
Proof.
  exact (right_identity_nested 0 st_right 2%nat 0%nat 1%nat (VInt 5)
           eq_refl eq_refl eq_refl eq_refl eq_refl).
Defined.

Lemma app_identity_holds_witness :
  app_identity 2 (VObj 0) (VFunc 1) st_int =
  Ret true (init [OIdentity (VInt 5); OFun CIdentity; OIdentity (VFunc 1); OIdentity (VInt 5)]).
Proof. exact (app_identity_holds 0 st_int 0%nat 1%nat (VInt 5) eq_refl eq_refl eq_refl eq_refl). Defined.

Lemma functor_composition_scalar_witness :
  exists s', functor_composition 2 (VObj 0) (VFunc 1) (VFunc 2) (VFunc 3) st_comp = Ret true s'.
Proof.
  apply (functor_composition_scalar 0 st_comp 0%nat 1%nat 2%nat 3%nat plus_one times_two
           (VInt 3) (VInt 6) (VInt 7)); reflexivity.
Defined.

Lemma modify_returns_container_witness :
  call 2 (VFunc 1) (VInt 3) st_wrap =
  Ret (VObj 2) (init [OFun (CUser wrap_raw); OFun (CModify (VFunc 0) [(VInt 3, VObj 2)]);
                      OIdentity (VInt 3)]).
Proof.
  exact (modify_returns_container 0 st_wrap 1%nat 0%nat wrap_raw [] (VInt 3) (VInt 3)
           eq_refl eq_refl eq_refl eq_refl eq_refl eq_refl eq_refl).
Defined.
